(** * The gatsby-cli reporter: rich errors and activity trackers

    A shallow embedding of [packages/gatsby-cli/src/reporter/index.js]:
    [createRichError], the [reporter] object's [error], [panic] and
    [panicOnBuild], the console redirection, and the handles returned by
    [activityTimer] and [createProgress].

    JavaScript objects are finite maps from property names to values; the
    object spread [{...a, ...b}] is the union [b ∪ a], which keeps the value
    of its left operand on a key both have; and every call into a
    collaborator (rendering backend, telemetry, tracer) is an [event] of a
    trace.  Calls that can end the process or throw run in the monad [M]. *)

From stdpp Require Import gmap strings list fin_maps pretty.
From Stdlib Require Import ZArith Lia.

Set Warnings "-register-all".
Local Open Scope Z_scope.

(** ** JavaScript values *)

(** The values that reach this module.  Numbers are the doubles that are
    integers (counts, codes); an [Error] instance carries its [message] and
    its own enumerable properties; a function is opaque. *)
Inductive value : Type :=
| VUndefined
| VNull
| VBool (b : bool)
| VNum (n : Z)
| VStr (s : string)
| VFun (name : string)
| VObj (fields : gmap string value)
| VArr (items : list value)
| VErr (message : string) (props : gmap string value).

Abbreviation obj := (gmap string value).

(** [ToBoolean]: what [if (v)], [v && w], [v || w] and [v ? a : b] test. *)
Definition truthy (v : value) : bool :=
  match v with
  | VUndefined | VNull => false
  | VBool b => b
  | VNum n => negb (n =? 0)
  | VStr s => negb (String.eqb s "")
  | VFun _ | VObj _ | VArr _ | VErr _ _ => true
  end.

(** The [typeof] operator. *)
Definition typeof (v : value) : string :=
  match v with
  | VUndefined => "undefined"
  | VNull => "object"
  | VBool _ => "boolean"
  | VNum _ => "number"
  | VStr _ => "string"
  | VFun _ => "function"
  | VObj _ | VArr _ | VErr _ _ => "object"
  end.

(** The double nearest to the integer [z], ties going to the even
    significand.  Every integer of magnitude up to 2^53 is a double; beyond,
    the doubles of a binade 2^k .. 2^(k+1) are the multiples of 2^(k-52).
    (Magnitudes stay below the largest double.) *)
Definition round_double (z : Z) : Z :=
  let a := Z.abs z in
  if a <=? 2 ^ 53 then z
  else
    let ulp := 2 ^ (Z.log2 a - 52) in
    let q := a / ulp in
    let r := a mod ulp in
    let m := if 2 * r <? ulp then q
             else if ulp <? 2 * r then q + 1
             else if Z.even q then q else q + 1 in
    Z.sgn z * (m * ulp).

(** [++n] on a number [n] that is an integer: the sum [n + 1], rounded as
    every sum of doubles is. *)
Definition js_increment (n : Z) : Z := round_double (n + 1).

(** [v instanceof Error]. *)
Definition instanceof_Error (v : value) : bool :=
  match v with
  | VErr _ _ => true
  | _ => false
  end.

(** [o.k] on an object literal (also lodash's [get(o, k)] for a single key):
    [undefined] when the key is absent. *)
Definition prop (o : obj) (k : string) : value := default VUndefined (o !! k).

(** The index-keyed properties of an array or string. *)
Definition index_map (l : list value) : obj :=
  list_to_map (imap (fun i v => (pretty i, v)) l).

(** The own enumerable properties of a value: what [Object.assign({}, v)]
    and a spread copy. *)
Definition own_enumerable (v : value) : obj :=
  match v with
  | VObj fields => fields
  | VArr items => index_map items
  | VErr _ props => props
  | VStr s => index_map ((fun a => VStr (String a EmptyString)) <$> String.list_ascii_of_string s)
  | VUndefined | VNull | VBool _ | VNum _ | VFun _ => ∅
  end.

(** [Object.assign(target, source)]: the source's properties override the
    target's. *)
Definition Object_assign (target : obj) (source : value) : obj :=
  own_enumerable source ∪ target.

(** ** Effects *)

Inductive channel : Type := ChSuccess | ChVerbose | ChInfo | ChWarn | ChLog.

Inductive stream : Type := Stdout | Stderr.

(** A tracing span: its name and the span it is a child of. *)
Inductive span : Type :=
| Span (name : string) (childOf : option span).

(** What the module does to the outside, in order. *)
Inductive event : Type :=
| ReporterLog (ch : channel) (msg : value)
    (* reporterInstance.success / verbose / info / warn / log (msg) *)
| ReporterError (richError : obj)
    (* reporterInstance.error(richError) *)
| TrackError (name : string) (args : list value)
    (* trackError(name, { error: args }) *)
| ProcessWrite (fd : stream) (text : value)
    (* a direct write to a standard stream of the process *)
| StartSpan (s : span)
    (* tracer.startSpan(name, spanArgs) *)
| FinishSpan (s : span)
    (* span.finish() *)
| CreateActivity (fields : obj)
    (* reporterInstance.createActivity(fields) *)
| ActivityUpdate (id : string) (fields : obj)
    (* activity.update(fields) *)
| ActivityDone (id : string).
    (* activity.done() *)

Inductive exn : Type := TypeError.

(** How a call ends: it returns, the process exits, or an exception
    propagates. *)
Inductive completion (A : Type) : Type :=
| Normal (a : A)
| Exit (code : Z)
| Throw (e : exn).
Arguments Normal {A} a.
Arguments Exit {A} code.
Arguments Throw {A} e.

(** A computation: the events it emitted and how it ended. *)
Definition M (A : Type) : Type := list event * completion A.

#[global] Instance M_ret : MRet M := fun A a => ([], Normal a).

#[global] Instance M_bind : MBind M := fun A B k m =>
  match m with
  | (t, Normal a) => let '(t', c) := k a in (t ++ t', c)
  | (t, Exit code) => (t, Exit code)
  | (t, Throw e) => (t, Throw e)
  end.

Definition emit (e : event) : M unit := ([e], Normal tt).
Definition process_exit {A : Type} (code : Z) : M A := ([], Exit code).
Definition throw {A : Type} (e : exn) : M A := ([], Throw e).

(** [v.message]: a [TypeError] on [undefined] and [null]; no other primitive,
    array or function has the property. *)
Definition get_message (v : value) : M value :=
  match v with
  | VUndefined | VNull => throw TypeError
  | VErr message _ => mret (VStr message)
  | VObj fields => mret (prop fields "message")
  | VBool _ | VNum _ | VStr _ | VFun _ | VArr _ => mret VUndefined
  end.

(** ** The collaborators *)

(** An entry of the error table: its [text] generator and its other own
    properties ([level], [category], [docsUrl], ...). *)
Record ErrorDefinition : Type := {
  def_text : value -> value;
  def_fields : obj;
}.

(** The property names every object literal inherits from
    [Object.prototype]. *)
Definition Object_prototype_names : list string :=
  ["constructor"; "hasOwnProperty"; "isPrototypeOf"; "propertyIsEnumerable";
   "toLocaleString"; "toString"; "valueOf"; "__proto__";
   "__defineGetter__"; "__defineSetter__"; "__lookupGetter__";
   "__lookupSetter__"].

(** What [errorMap[k]] finds, when it is not [undefined]: an entry of the
    table, or a member that the table, an object literal, inherits from
    [Object.prototype] ([constructor], [toString], [hasOwnProperty],
    [__proto__], ...).  An inherited member is truthy, has no own enumerable
    property and has no [text]. *)
Inductive table_member : Type :=
| Entry (d : ErrorDefinition)
| Inherited.

(** What the object literal of [createRichError] spreads of an inherited
    member: nothing.  It has no [text] to call; [createRichError] throws
    where the source would call it, so no record is built with the value
    given here. *)
Definition inherited_member : ErrorDefinition := {|
  def_text := fun _ => VUndefined;
  def_fields := ∅;
|}.

(** What the module requires from [../util/error-map], [joi] with
    [../util/error-schema], [stack-trace], [./errors] and [util].
    [errorMap k] is what the property access [errorMap[k]] finds, [None]
    when that is [undefined]; [Joi_validate r] is the [error] member of
    [Joi.validate(r, errorSchema)], [None] for [null]. *)
Record externals : Type := {
  errorMap : value -> option table_member;
  defaultError : ErrorDefinition;
  Joi_validate : obj -> option value;
  stackTrace_parse : value -> list value;
  errorFormatter_render : value -> value;
  util_format : list value -> value;
}.

(** ** The reporter *)

Section Reporter.

Variable E : externals.

(** [reporter.log], which is [reporterInstance.log]. *)
Definition reporter_log (msg : value) : M unit := emit (ReporterLog ChLog msg).
Definition reporter_warn (msg : value) : M unit := emit (ReporterLog ChWarn msg).
Definition reporter_info (msg : value) : M unit := emit (ReporterLog ChInfo msg).

(** [console.log] as the module installs it:
    [(...args) => reporter.log(util.format(...args))]. *)
Definition console_log (args : list value) : M unit :=
  reporter_log (util_format E args).
Definition console_warn (args : list value) : M unit :=
  reporter_warn (util_format E args).
Definition console_info (args : list value) : M unit :=
  reporter_info (util_format E args).

(** [(details.id && errorMap[details.id]) || defaultError] *)
Definition lookup_member (details : obj) : table_member :=
  if truthy (prop details "id")
  then default (Entry (defaultError E)) (errorMap E (prop details "id"))
  else Entry (defaultError E).

(** [result], as the object literal reads it. *)
Definition lookup_definition (details : obj) : ErrorDefinition :=
  match lookup_member details with
  | Entry d => d
  | Inherited => inherited_member
  end.

(** Whether [get(details, `text`) || result.text(details.context)] calls a
    [text] that is not a function: the left operand is falsy and [result]
    is an inherited member. *)
Definition generator_missing (details : obj) : bool :=
  negb (truthy (prop details "text"))
  && match lookup_member details with
     | Entry _ => false
     | Inherited => true
     end.

(** [get(details, `text`) || result.text(details.context)] *)
Definition resolve_text (details : obj) : value :=
  if truthy (prop details "text")
  then prop details "text"
  else def_text (lookup_definition details) (prop details "context").

(** [details.error ? stackTrace.parse(details.error) : []] *)
Definition resolve_stack (details : obj) : value :=
  if truthy (prop details "error")
  then VArr (stackTrace_parse E (prop details "error"))
  else VArr [].

(** The object literal
    [{ ...details, ...result, text: ..., stack: ... }]:
    a later key overrides an earlier one. *)
Definition richError_of (details : obj) : obj :=
  <["stack" := resolve_stack details]>
    (<["text" := resolve_text details]>
       (def_fields (lookup_definition details) ∪ details)).

Definition createRichError (details : obj) : M obj :=
  if generator_missing details then throw TypeError
  else
    let richError := richError_of details in
    match Joi_validate E richError with
    | Some error =>
        console_log [VStr "Failed to validate error"; error];;
        process_exit 1
    | None => mret richError
    end.

(** The first half of [reporter.error]: the call shapes turned into details.
    [errorMeta] and [error] are the two formal parameters, [undefined] when
    the call passes fewer arguments. *)
Definition error_details (args : list value) : M obj :=
  let errorMeta := default VUndefined (args !! 0%nat) in
  let error := default VUndefined (args !! 1%nat) in
  if (length args =? 2)%nat then
    mret (<["text" := errorMeta]> (<["error" := error]> ∅))
  else if (length args =? 1)%nat && instanceof_Error errorMeta then
    message ← get_message error;
    mret (<["text" := message]> (<["error" := errorMeta]> ∅))
  else if (length args =? 1)%nat && String.eqb (typeof errorMeta) "object" then
    mret (Object_assign ∅ errorMeta)
  else if (length args =? 1)%nat && String.eqb (typeof errorMeta) "string" then
    mret (<["text" := errorMeta]> ∅)
  else mret ∅.

(** The tail of [reporter.error]: the rich error goes to the backend, and the
    formatted exception, when one is attached, to the log. *)
Definition render_richError (richError : obj) : M unit :=
  emit (ReporterError richError);;
  if truthy (prop richError "error")
  then reporter_log (errorFormatter_render E (prop richError "error"))
  else mret tt.

Definition error (args : list value) : M unit :=
  details ← error_details args;
  richError ← createRichError details;
  render_richError richError.

(** [console.error] as the module installs it. *)
Definition console_error (args : list value) : M unit :=
  error [util_format E args].

Definition panic (args : list value) : M unit :=
  error args;;
  emit (TrackError "GENERAL_PANIC" args);;
  process_exit 1.

(** [gatsby_executing_command] is [process.env.gatsby_executing_command],
    [None] when the variable is not set. *)
Definition panicOnBuild (gatsby_executing_command : option string)
    (args : list value) : M unit :=
  error args;;
  emit (TrackError "BUILD_PANIC" args);;
  if bool_decide (gatsby_executing_command = Some "build")
  then process_exit 1
  else mret tt.

End Reporter.

(** ** Activities *)

(** [parentSpan ? { childOf: parentSpan } : {}], then
    [tracer.startSpan(name, spanArgs)]. *)
Definition startSpan (name : string) (parentSpan : option span) : span :=
  Span name parentSpan.

(** *** The spinner of [activityTimer] *)

(** The handle closes over [span] and the backend's [activity], which the
    backend knows by its [id], the name. *)
Record spinner : Type := {
  s_name : string;
  s_span : span;
}.

Definition activityTimer (name : string) (parentSpan : option span)
    : spinner * list event :=
  let span := startSpan name parentSpan in
  ({| s_name := name; s_span := span |},
   [StartSpan span;
    CreateActivity
      (<["status" := VStr ""]>
         (<["id" := VStr name]> (<["type" := VStr "spinner"]> ∅)))]).

(** The calls on a spinner handle; [now] is what [process.hrtime()]
    returns at the call. *)
Inductive spinner_call : Type :=
| SStart (now : value)
| SSetStatus (status : value)
| SEnd.

Definition spinner_step (s : spinner) (c : spinner_call) : spinner * list event :=
  match c with
  | SStart now => (s, [ActivityUpdate (s_name s) (<["startTime" := now]> ∅)])
  | SSetStatus status => (s, [ActivityUpdate (s_name s) (<["status" := status]> ∅)])
  | SEnd => (s, [FinishSpan (s_span s); ActivityDone (s_name s)])
  end.

(** *** The progress bar of [createProgress] *)

(** The handle closes over [span], [activity] and the variables
    [hasStarted], [current] and [total]. *)
Record progress : Type := {
  p_name : string;
  p_span : span;
  hasStarted : bool;
  current : Z;
  total : value;
}.

(** [start] is [None] when the caller leaves it out: the default [0]. *)
Definition createProgress (name : string) (total : value) (start : option Z)
    (parentSpan : option span) : progress * list event :=
  let span := startSpan name parentSpan in
  let current := default 0 start in
  ({| p_name := name; p_span := span; hasStarted := false;
      current := current; total := total |},
   [StartSpan span;
    CreateActivity
      (<["total" := total]>
         (<["current" := VNum current]>
            (<["id" := VStr name]> (<["type" := VStr "progress"]> ∅))))]).

Inductive progress_call : Type :=
| PStart (now : value)
| PSetStatus (status : value)
| PTick
| PDone
| PSetTotal (v : value).

Definition progress_step (p : progress) (c : progress_call) : progress * list event :=
  match c with
  | PStart now =>
      if hasStarted p then (p, [])
      else ({| p_name := p_name p; p_span := p_span p; hasStarted := true;
               current := current p; total := total p |},
            [ActivityUpdate (p_name p) (<["startTime" := now]> ∅)])
  | PSetStatus status =>
      (p, [ActivityUpdate (p_name p) (<["status" := status]> ∅)])
  | PTick =>
      let current' := js_increment (current p) in
      ({| p_name := p_name p; p_span := p_span p; hasStarted := hasStarted p;
          current := current'; total := total p |},
       [ActivityUpdate (p_name p) (<["current" := VNum current']> ∅)])
  | PDone => (p, [FinishSpan (p_span p); ActivityDone (p_name p)])
  | PSetTotal v =>
      ({| p_name := p_name p; p_span := p_span p; hasStarted := hasStarted p;
          current := current p; total := v |},
       [ActivityUpdate (p_name p) (<["total" := v]> ∅)])
  end.

(** A sequence of calls on one handle, with everything it pushed. *)
Fixpoint progress_run (p : progress) (cs : list progress_call)
    : progress * list event :=
  match cs with
  | [] => (p, [])
  | c :: cs' =>
      let '(p', t) := progress_step p c in
      let '(p'', t') := progress_run p' cs' in
      (p'', t ++ t')
  end.

Fixpoint spinner_run (s : spinner) (cs : list spinner_call)
    : spinner * list event :=
  match cs with
  | [] => (s, [])
  | c :: cs' =>
      let '(s', t) := spinner_step s c in
      let '(s'', t') := spinner_run s' cs' in
      (s'', t ++ t')
  end.

(** ** A concrete set of collaborators *)

Module Sample.

(** Modelled from the spec: the error table of [../util/error-map] is not
    part of the sources; an entry is a record
    [{ text(context) -> string, level, category, ... }] and a default entry
    serves a missing or unknown identifier.  The table is an object literal
    with the one entry [95312]; like every object literal it inherits the
    members of [Object.prototype]. *)
Definition ssr_definition : ErrorDefinition := {|
  def_text := fun context =>
    match context with
    | VObj fields =>
        match fields !! "ref" with
        | Some (VStr ref) =>
            VStr (ref ++ " is not available during server side rendering.")
        | _ => VStr "The value is not available during server side rendering."
        end
    | _ => VStr "The value is not available during server side rendering."
    end;
  def_fields :=
    <["docsUrl" := VStr "https://gatsby.dev/debug-html"]>
      (<["category" := VStr "USER"]> (<["level" := VStr "ERROR"]> ∅));
|}.

Definition default_definition : ErrorDefinition := {|
  def_text := fun _ => VStr "There was an error";
  def_fields := <["category" := VStr "UNKNOWN"]> (<["level" := VStr "ERROR"]> ∅);
|}.

Definition table (k : value) : option table_member :=
  match k with
  | VStr "95312" | VNum 95312 => Some (Entry ssr_definition)
  | VStr name =>
      if bool_decide (name ∈ Object_prototype_names) then Some Inherited
      else None
  | _ => None
  end.

(** Modelled from the spec: the schema of [../util/error-schema] is not part
    of the sources; validation checks that "required fields [are] present,
    correct shapes".  Here: [text] is a non-empty string. *)
Definition validate (r : obj) : option value :=
  match r !! "text" with
  | Some (VStr s) =>
      if String.eqb s "" then Some (VStr "text is not allowed to be empty") else None
  | _ => Some (VStr "text must be a string")
  end.

Definition collaborators : externals := {|
  errorMap := table;
  defaultError := default_definition;
  Joi_validate := validate;
  stackTrace_parse := fun e =>
    match e with
    | VErr _ _ => [VObj (<["lineNumber" := VNum 1]> (<["fileName" := VStr "index.js"]> ∅))]
    | _ => []
    end;
  errorFormatter_render := fun e => e;
  util_format := fun args => VArr args;
|}.

End Sample.

(** ** Vocabulary of the properties *)

(** The merge as the specification words it, for comparison with
    [richError_of]: "definition fields, then caller-supplied details", a
    later key overriding an earlier one; [text] and [stack] are resolved as
    in [richError_of]. *)
Definition richError_definition_first (E : externals) (details : obj) : obj :=
  <["stack" := resolve_stack E details]>
    (<["text" := resolve_text E details]>
       (details ∪ def_fields (lookup_definition E details))).

(** The telemetry records of a trace. *)
Definition telemetry_of (e : event) : option (string * list value) :=
  match e with
  | TrackError name args => Some (name, args)
  | _ => None
  end.

Definition telemetry (t : list event) : list (string * list value) :=
  omap telemetry_of t.

(** Whether an event writes to the standard error stream. *)
Definition writes_stderr (e : event) : bool :=
  match e with
  | ProcessWrite Stderr _ => true
  | _ => false
  end.

(** The start times a trace pushes to the backend. *)
Definition stamp_of (e : event) : option value :=
  match e with
  | ActivityUpdate _ fields => fields !! "startTime"
  | _ => None
  end.

Definition stamps (t : list event) : list value := omap stamp_of t.

(** The times at which a sequence of calls calls [start()]. *)
Definition start_time_of (c : progress_call) : option value :=
  match c with
  | PStart now => Some now
  | _ => None
  end.

Definition start_times (cs : list progress_call) : list value :=
  omap start_time_of cs.

(** A single argument that has none of the shapes [reporter.error] tests
    for. *)
Definition shapeless (v : value) : Prop :=
  instanceof_Error v = false /\ typeof v ≠ "object" /\ typeof v ≠ "string".

(** ** Vocabulary of the further properties *)

(** An event that is a report to the rendering backend: a rich error or a
    line on the [log] channel. *)
Definition is_report (e : event) : bool :=
  match e with
  | ReporterLog ChLog _ | ReporterError _ => true
  | _ => false
  end.

(** The rich errors a trace hands to the rendering backend. *)
Definition rendered_of (e : event) : option obj :=
  match e with
  | ReporterError richError => Some richError
  | _ => None
  end.

Definition rendered (t : list event) : list obj := omap rendered_of t.

(** A [GENERAL_PANIC] telemetry record renamed [BUILD_PANIC]; every other
    event as it is. *)
Definition as_build_panic (e : event) : event :=
  match e with
  | TrackError name args =>
      if String.eqb name "GENERAL_PANIC" then TrackError "BUILD_PANIC" args
      else TrackError name args
  | _ => e
  end.

(** The calls of a sequence that are [tick()], [done()], and the totals it
    assigns. *)
Definition is_tick (c : progress_call) : bool :=
  match c with
  | PTick => true
  | _ => false
  end.

Definition is_done (c : progress_call) : bool :=
  match c with
  | PDone => true
  | _ => false
  end.

Definition is_start (c : progress_call) : bool :=
  match c with
  | PStart _ => true
  | _ => false
  end.

Definition tick_count (cs : list progress_call) : Z :=
  Z.of_nat (length (List.filter is_tick cs)).

Definition done_count (cs : list progress_call) : nat :=
  length (List.filter is_done cs).

Definition assigned_total_of (c : progress_call) : option value :=
  match c with
  | PSetTotal v => Some v
  | _ => None
  end.

Definition assigned_totals (cs : list progress_call) : list value :=
  omap assigned_total_of cs.

(** The counts a trace pushes to the backend, and the spans it finishes. *)
Definition pushed_count_of (e : event) : option value :=
  match e with
  | ActivityUpdate _ fields => fields !! "current"
  | _ => None
  end.

Definition pushed_counts (t : list event) : list value := omap pushed_count_of t.

Definition finished_span_of (e : event) : option span :=
  match e with
  | FinishSpan s => Some s
  | _ => None
  end.

Definition finished_spans (t : list event) : list span := omap finished_span_of t.

(** An event on the activity [name] or on the span [sp]: an update or the
    end of that activity, or the finish of that span. *)
Definition addresses (name : string) (sp : span) (e : event) : Prop :=
  match e with
  | ActivityUpdate id _ | ActivityDone id => id = name
  | FinishSpan s => s = sp
  | _ => False
  end.

(** The times at which a sequence of calls on a spinner calls [start()],
    and its number of [end()] calls. *)
Definition spinner_start_time_of (c : spinner_call) : option value :=
  match c with
  | SStart now => Some now
  | _ => None
  end.

Definition spinner_start_times (cs : list spinner_call) : list value :=
  omap spinner_start_time_of cs.

Definition is_end (c : spinner_call) : bool :=
  match c with
  | SEnd => true
  | _ => false
  end.

Definition end_count (cs : list spinner_call) : nat :=
  length (List.filter is_end cs).

(** A string of decimal digits. *)
Definition is_digit (a : Ascii.ascii) : bool :=
  (48 <=? Z.of_nat (Ascii.nat_of_ascii a))
  && (Z.of_nat (Ascii.nat_of_ascii a) <=? 57).

Fixpoint digits (s : string) : bool :=
  match s with
  | EmptyString => true
  | String a s' => is_digit a && digits s'
  end.

(** * Properties *)

(** ** The monad *)

Lemma bind_normal {A B : Type} (t : list event) (a : A) (k : A -> M B) :
  ((t, Normal a) ≫= k) = (t ++ fst (k a), snd (k a)).
Proof. unfold mbind, M_bind. by destruct (k a). Qed.

Lemma bind_exit {A B : Type} (t : list event) (code : Z) (k : A -> M B) :
  ((t, Exit code) ≫= k) = (t, Exit code).
Proof. reflexivity. Qed.

Lemma bind_throw {A B : Type} (t : list event) (e : exn) (k : A -> M B) :
  ((t, Throw e) ≫= k) = (t, Throw e).
Proof. reflexivity. Qed.

Lemma bind_ret {A B : Type} (a : A) (k : A -> M B) : (mret a ≫= k) = k a.
Proof. unfold mret, M_ret. rewrite bind_normal. by destruct (k a). Qed.

(** ** Reading properties *)

Lemma prop_lookup_Some (o : obj) (k : string) (v : value) :
  o !! k = Some v -> prop o k = v.
Proof. unfold prop. by intros ->. Qed.

Lemma prop_lookup_None (o : obj) (k : string) :
  o !! k = None -> prop o k = VUndefined.
Proof. unfold prop. by intros ->. Qed.


Section ReporterFacts.

Variable E : externals.

(** ** [createRichError] *)

Lemma createRichError_spec (details : obj) :
  createRichError E details =
    if generator_missing E details then ([], Throw TypeError)
    else
      match Joi_validate E (richError_of E details) with
      | Some err =>
          ([ReporterLog ChLog
              (util_format E [VStr "Failed to validate error"; err])],
           Exit 1)
      | None => ([], Normal (richError_of E details))
      end.
Proof.
  unfold createRichError. destruct (generator_missing E details); [done |].
  by destruct (Joi_validate E _).
Qed.

Lemma createRichError_valid (details : obj) :
  generator_missing E details = false ->
  Joi_validate E (richError_of E details) = None ->
  createRichError E details = ([], Normal (richError_of E details)).
Proof. rewrite createRichError_spec. by intros -> ->. Qed.

Lemma createRichError_invalid (details : obj) (err : value) :
  generator_missing E details = false ->
  Joi_validate E (richError_of E details) = Some err ->
  createRichError E details =
    ([ReporterLog ChLog (util_format E [VStr "Failed to validate error"; err])],
     Exit 1).
Proof. rewrite createRichError_spec. by intros -> ->. Qed.

Lemma richError_text (details : obj) :
  richError_of E details !! "text" = Some (resolve_text E details).
Proof. unfold richError_of. by rewrite lookup_insert_ne, lookup_insert_eq. Qed.

Lemma richError_stack (details : obj) :
  richError_of E details !! "stack" = Some (resolve_stack E details).
Proof. unfold richError_of. by rewrite lookup_insert_eq. Qed.

Lemma richError_other (details : obj) (k : string) :
  k ≠ "text" -> k ≠ "stack" ->
  richError_of E details !! k =
    (def_fields (lookup_definition E details) ∪ details) !! k.
Proof.
  intros Ht Hs. unfold richError_of.
  by rewrite !lookup_insert_ne.
Qed.

Lemma lookup_member_no_id (details : obj) :
  details !! "id" = None -> lookup_member E details = Entry (defaultError E).
Proof.
  intros H. unfold lookup_member. by rewrite (prop_lookup_None _ _ H).
Qed.

Lemma lookup_member_unknown (details : obj) :
  errorMap E (prop details "id") = None ->
  lookup_member E details = Entry (defaultError E).
Proof.
  intros H. unfold lookup_member. rewrite H. by destruct (truthy _).
Qed.

Lemma lookup_member_known (details : obj) (m : table_member) :
  truthy (prop details "id") = true ->
  errorMap E (prop details "id") = Some m ->
  lookup_member E details = m.
Proof. intros Hid Hm. unfold lookup_member. by rewrite Hid, Hm. Qed.

Lemma lookup_definition_no_id (details : obj) :
  details !! "id" = None -> lookup_definition E details = defaultError E.
Proof.
  intros H. unfold lookup_definition. by rewrite (lookup_member_no_id _ H).
Qed.

Lemma lookup_definition_unknown (details : obj) :
  errorMap E (prop details "id") = None ->
  lookup_definition E details = defaultError E.
Proof.
  intros H. unfold lookup_definition. by rewrite (lookup_member_unknown _ H).
Qed.

(** A definition found for the details has a [text] to call. *)
Lemma generator_present (details : obj) (d : ErrorDefinition) :
  lookup_member E details = Entry d -> generator_missing E details = false.
Proof.
  intros H. unfold generator_missing. rewrite H. by destruct (truthy _).
Qed.

Lemma generator_present_no_id (details : obj) :
  details !! "id" = None -> generator_missing E details = false.
Proof. intros H. by apply (generator_present _ _ (lookup_member_no_id _ H)). Qed.

Lemma generator_present_text (details : obj) :
  truthy (prop details "text") = true -> generator_missing E details = false.
Proof. intros H. unfold generator_missing. by rewrite H. Qed.

End ReporterFacts.

(** ** The call shapes of [reporter.error] *)

Section ErrorShapes.

Variable E : externals.

Lemma error_details_two (errorMeta err : value) :
  error_details [errorMeta; err] =
    mret (<["text" := errorMeta]> (<["error" := err]> ∅)).
Proof. reflexivity. Qed.

Lemma error_details_string (s : string) :
  error_details [VStr s] = mret (<["text" := VStr s]> ∅).
Proof. reflexivity. Qed.

Lemma error_details_nullary : error_details [] = mret ∅.
Proof. reflexivity. Qed.

Lemma error_details_shapeless (v : value) :
  shapeless v -> error_details [v] = mret ∅.
Proof.
  intros (Herr & Hobj & Hstr). unfold error_details. simpl.
  rewrite Herr. simpl.
  destruct (String.eqb_spec (typeof v) "object") as [Heq | _]; [done |].
  destruct (String.eqb_spec (typeof v) "string") as [Heq | _]; [done |].
  reflexivity.
Qed.

(** C1, at the one-exception call shape.  With [e] an [Error] whose message
    is [message], [error(message, e)] normalises to the details
    [{ error: e, text: message }], but [error(e)] reads [.message] of its
    second parameter, which is [undefined] there: the call throws a
    [TypeError] before any rich error is built or rendered. *)
Theorem error_of_single_exception_throws (message : string) (props : obj) :
  let e := VErr message props in
  error_details [VStr message; e]
    = mret (<["text" := VStr message]> (<["error" := e]> ∅))
  /\ error_details [e] = throw TypeError
  /\ error E [e] = ([], Throw TypeError).
Proof. repeat split. Qed.

End ErrorShapes.

(** ** The merge of [createRichError] *)

Section Merge.

Variable E : externals.

(** C2, amended.  The spread puts the caller's details first and the
    looked-up definition second, so on every key other than [text] and
    [stack] the rich error holds the definition's value where the definition
    has the key, and the caller's value only where it has not: severity and
    category are the definition's, and the caller's identifier, context and
    error survive because no definition carries those keys. *)
Theorem merge_definition_overrides_details (details : obj) (k : string) :
  k ≠ "text" -> k ≠ "stack" ->
  let result := lookup_definition E details in
  let richError := richError_of E details in
  richError !! k = (def_fields result ∪ details) !! k
  /\ (forall v, def_fields result !! k = Some v -> richError !! k = Some v)
  /\ (def_fields result !! k = None -> richError !! k = details !! k)
  /\ (Joi_validate E richError = None ->
      createRichError E details =
        if generator_missing E details then ([], Throw TypeError)
        else ([], Normal richError)).
Proof.
  intros Ht Hs result richError. subst result richError.
  rewrite (richError_other E details k Ht Hs).
  split; [done |]. split; [| split].
  - intros v Hv. by apply lookup_union_Some_l.
  - intros Hnone. by apply lookup_union_r.
  - intros Hvalid. by rewrite createRichError_spec, Hvalid.
Qed.

(** C4, amended.  When validation reports an error, [createRichError] logs
    the diagnostic through [console.log], which the module has redirected to
    [reporter.log], and ends the process with status 1; when validation
    reports none it returns the merged record and emits nothing.  Neither
    path writes to a standard stream itself.  (Validation is reached unless
    the literal throws first, calling the [text] of an inherited member.) *)
Theorem createRichError_validates (details : obj) :
  let richError := richError_of E details in
  createRichError E details =
    (if generator_missing E details then ([], Throw TypeError)
     else
       match Joi_validate E richError with
       | Some err =>
           ([ReporterLog ChLog
               (util_format E [VStr "Failed to validate error"; err])],
            Exit 1)
       | None => ([], Normal richError)
       end)
  /\ Forall (fun e => writes_stderr e = false) (fst (createRichError E details)).
Proof.
  intros richError. subst richError. rewrite createRichError_spec.
  split; [done |].
  destruct (generator_missing E details); [constructor |].
  destruct (Joi_validate E (richError_of E details)) as [err |]; simpl.
  - by repeat constructor.
  - constructor.
Qed.


(** C9, at an identifier the table inherits.  For details whose identifier
    names no entry of the table but a member the table object inherits
    ([constructor], [toString], ...), the lookup is truthy and the default
    definition is not used: with no truthy text of the caller's, the literal
    calls a [text] that does not exist and [createRichError], and with it
    [error], throws a [TypeError]; with a truthy text the rich error is
    built from the caller's details alone, without the default's severity
    and category. *)
Theorem inherited_identifier_skips_default (details : obj) :
  truthy (prop details "id") = true ->
  errorMap E (prop details "id") = Some Inherited ->
  lookup_member E details = Inherited
  /\ (truthy (prop details "text") = false ->
      createRichError E details = ([], Throw TypeError)
      /\ error E [VObj details] = ([], Throw TypeError))
  /\ (truthy (prop details "text") = true ->
      forall k, k ≠ "text" -> k ≠ "stack" ->
        richError_of E details !! k = details !! k).
Proof.
  intros Hid Hinherited.
  assert (Hmember : lookup_member E details = Inherited)
    by by apply lookup_member_known.
  split; [done |]. split.
  - intros Htext.
    assert (Hthrow : createRichError E details = ([], Throw TypeError)).
    { rewrite createRichError_spec. unfold generator_missing.
      by rewrite Htext, Hmember. }
    split; [done |].
    assert (Hdetails : error_details [VObj details] = mret details).
    { unfold error_details, Object_assign. simpl.
      by rewrite (right_id_L ∅ (∪)). }
    unfold error. by rewrite Hdetails, bind_ret, Hthrow.
  - intros Htext k Hk Hs. rewrite richError_other by done.
    unfold lookup_definition. rewrite Hmember. simpl.
    by rewrite (left_id_L ∅ (∪)).
Qed.

(** X18.  Details without an identifier, and details whose identifier the
    table lookup does not find (it is [undefined]), both get the default
    definition: the rich error carries the default's severity and category,
    and adding such an identifier to details that had none changes the rich
    error on no key but [id]. *)
Theorem unknown_identifier_uses_default (details : obj) :
  details !! "id" = None \/ errorMap E (prop details "id") = None ->
  let richError := richError_of E details in
  lookup_definition E details = defaultError E
  /\ (forall v, def_fields (defaultError E) !! "level" = Some v ->
        richError !! "level" = Some v)
  /\ (forall v, def_fields (defaultError E) !! "category" = Some v ->
        richError !! "category" = Some v)
  /\ (forall (id : value) (k : string),
        details !! "id" = None -> errorMap E id = None -> k ≠ "id" ->
        richError_of E (<["id" := id]> details) !! k = richError !! k).
Proof.
  intros Hid richError. subst richError.
  assert (Hdef : lookup_definition E details = defaultError E).
  { destruct Hid as [Hnone | Hunknown];
      [by apply lookup_definition_no_id | by apply lookup_definition_unknown]. }
  split; [done |]. split; [| split].
  - intros v Hv. rewrite richError_other by done. rewrite Hdef.
    by apply lookup_union_Some_l.
  - intros v Hv. rewrite richError_other by done. rewrite Hdef.
    by apply lookup_union_Some_l.
  - intros id k Hnone Hunknown Hk.
    assert (Hdef' : lookup_definition E (<["id" := id]> details) = defaultError E).
    { apply lookup_definition_unknown.
      by rewrite (prop_lookup_Some _ _ id (lookup_insert_eq _ _ _)). }
    assert (Hprop : forall j, j ≠ "id" ->
              prop (<["id" := id]> details) j = prop details j).
    { intros j Hj. unfold prop. by rewrite lookup_insert_ne. }
    unfold richError_of, resolve_text, resolve_stack.
    rewrite Hdef', Hdef, !Hprop by done.
    destruct (decide (k = "stack")) as [-> | Hs]; [by rewrite !lookup_insert_eq |].
    rewrite !(lookup_insert_ne _ "stack") by done.
    destruct (decide (k = "text")) as [-> | Ht]; [by rewrite !lookup_insert_eq |].
    rewrite !(lookup_insert_ne _ "text") by done.
    rewrite !lookup_union. by rewrite lookup_insert_ne.
Qed.

End Merge.

(** ** [reporter.error], [panic] and [panicOnBuild] *)

Section Facade.

Variable E : externals.

Lemma error_details_silent (args : list value) : fst (error_details args) = [].
Proof.
  unfold error_details.
  destruct (length args =? 2)%nat; [done |].
  destruct ((length args =? 1)%nat && instanceof_Error _); [| repeat case_match; done].
  by destruct (default VUndefined (args !! 1%nat)).
Qed.

Lemma createRichError_no_telemetry (details : obj) :
  telemetry (fst (createRichError E details)) = [].
Proof.
  rewrite createRichError_spec.
  destruct (generator_missing E details); [done |].
  by destruct (Joi_validate E _).
Qed.

Lemma render_richError_spec (richError : obj) :
  render_richError E richError =
    (ReporterError richError ::
       (if truthy (prop richError "error")
        then [ReporterLog ChLog (errorFormatter_render E (prop richError "error"))]
        else []),
     Normal tt).
Proof. unfold render_richError. by destruct (truthy _). Qed.

Lemma error_no_telemetry (args : list value) :
  telemetry (fst (error E args)) = [].
Proof.
  unfold error.
  pose proof (error_details_silent args) as Hsilent.
  destruct (error_details args) as [t [details | code | e]]; simpl in Hsilent;
    subst t; [| done | done].
  rewrite bind_normal. simpl.
  pose proof (createRichError_no_telemetry details) as Hcreate.
  destruct (createRichError E details) as [t [r | code | e]]; simpl in Hcreate;
    [| done | done].
  rewrite bind_normal, render_richError_spec. simpl.
  unfold telemetry in *. rewrite omap_app, Hcreate. simpl.
  by destruct (truthy _).
Qed.

(** C10.  A single argument that is no [Error], no object and no string
    leaves the details record empty.  [error] does not skip the call: it
    builds the rich error from the default definition - the default's
    fields, the default's text generated for an undefined context, an empty
    stack - and hands that record to the rendering backend; only a record
    the schema rejects ends the process, as it does for every call shape. *)
Theorem shapeless_argument_builds_default (v : value) :
  shapeless v ->
  let richError :=
    <["stack" := VArr []]>
      (<["text" := def_text (defaultError E) VUndefined]>
         (def_fields (defaultError E))) in
  error_details [v] = mret ∅
  /\ richError_of E ∅ = richError
  /\ error E [v] =
       match Joi_validate E richError with
       | None =>
           (ReporterError richError ::
              (if truthy (prop richError "error")
               then [ReporterLog ChLog
                       (errorFormatter_render E (prop richError "error"))]
               else []),
            Normal tt)
       | Some err =>
           ([ReporterLog ChLog
               (util_format E [VStr "Failed to validate error"; err])],
            Exit 1)
       end.
Proof.
  intros Hshape richError.
  assert (Hrich : richError_of E ∅ = richError).
  { unfold richError_of, resolve_text, resolve_stack, lookup_definition,
      lookup_member, prop.
    rewrite !lookup_empty. simpl. by rewrite (right_id_L ∅ (∪)). }
  assert (Hgen : generator_missing E ∅ = false)
    by by apply generator_present_no_id.
  split; [by apply error_details_shapeless |]. split; [done |].
  unfold error. rewrite (error_details_shapeless v Hshape), bind_ret.
  destruct (Joi_validate E richError) as [err |] eqn:Hvalid.
  - rewrite (createRichError_invalid E ∅ err) by (done || by rewrite Hrich).
    by rewrite bind_exit.
  - rewrite createRichError_valid by (done || by rewrite Hrich).
    by rewrite bind_normal, Hrich, render_richError_spec.
Qed.

(** C5, amended.  When [error] on the arguments returns, [panicOnBuild]
    has rendered what [error] renders, records one [BUILD_PANIC] telemetry
    event, and ends the process with status 1 exactly when
    [gatsby_executing_command] is [build], returning otherwise.  When
    [error] ends the process, which it does when validation rejects the rich
    error, [panicOnBuild] ends there too, in every mode and with no telemetry
    recorded. *)
Theorem panicOnBuild_after_error (cmd : option string) (args : list value)
    (t : list event) (c : completion unit) :
  error E args = (t, c) ->
  (c = Normal tt ->
     panicOnBuild E cmd args =
       (t ++ [TrackError "BUILD_PANIC" args],
        if bool_decide (cmd = Some "build") then Exit 1 else Normal tt)
     /\ telemetry (fst (panicOnBuild E cmd args)) = [("BUILD_PANIC", args)]
     /\ (snd (panicOnBuild E cmd args) = Exit 1 <-> cmd = Some "build")
     /\ (cmd ≠ Some "build" -> snd (panicOnBuild E cmd args) = Normal tt))
  /\ (forall code, c = Exit code ->
        panicOnBuild E cmd args = (t, Exit code)
        /\ telemetry (fst (panicOnBuild E cmd args)) = []).
Proof.
  intros Herr.
  pose proof (error_no_telemetry args) as Hquiet. rewrite Herr in Hquiet.
  simpl in Hquiet.
  split.
  - intros ->.
    assert (Hrun : panicOnBuild E cmd args =
              (t ++ [TrackError "BUILD_PANIC" args],
               if bool_decide (cmd = Some "build") then Exit 1 else Normal tt)).
    { unfold panicOnBuild. rewrite Herr, bind_normal.
      unfold emit. rewrite bind_normal. by case_bool_decide. }
    rewrite Hrun. simpl. split; [done |]. split; [| split].
    + unfold telemetry in *. by rewrite omap_app, Hquiet.
    + case_bool_decide; split; intros; done.
    + intros Hne. by rewrite bool_decide_eq_false_2.
  - intros code ->. unfold panicOnBuild. rewrite Herr. by rewrite bind_exit.
Qed.

End Facade.

(** ** Activity handles *)

Section Handles.

Lemma progress_run_app (p : progress) (cs cs' : list progress_call) :
  progress_run p (cs ++ cs') =
    (fst (progress_run (fst (progress_run p cs)) cs'),
     snd (progress_run p cs) ++ snd (progress_run (fst (progress_run p cs)) cs')).
Proof.
  revert p. induction cs as [| c cs IH]; intros p; simpl.
  - by destruct (progress_run p cs').
  - destruct (progress_step p c) as [p1 t1]. rewrite IH.
    destruct (progress_run p1 cs) as [p2 t2]. simpl.
    by rewrite app_assoc.
Qed.

(** No call resets [hasStarted]. *)
Lemma progress_step_keeps_started (p : progress) (c : progress_call) :
  hasStarted p = true -> hasStarted (fst (progress_step p c)) = true.
Proof. intros H. destruct c; simpl; by rewrite ?H. Qed.

Lemma progress_run_keeps_started (p : progress) (cs : list progress_call) :
  hasStarted p = true -> hasStarted (fst (progress_run p cs)) = true.
Proof.
  revert p. induction cs as [| c cs IH]; intros p H; simpl; [done |].
  pose proof (progress_step_keeps_started p c H) as Hstep.
  destruct (progress_step p c) as [p1 t1]. simpl in Hstep.
  specialize (IH p1 Hstep). by destruct (progress_run p1 cs).
Qed.

(** The name and the span of a handle never change. *)
Lemma progress_step_name (p : progress) (c : progress_call) :
  p_name (fst (progress_step p c)) = p_name p.
Proof. destruct c; simpl; by try destruct (hasStarted p). Qed.

(** A started tracker pushes no start time, whatever is called on it. *)
Lemma stamps_started (p : progress) (cs : list progress_call) :
  hasStarted p = true -> stamps (snd (progress_run p cs)) = [].
Proof.
  revert p. induction cs as [| c cs IH]; intros p H; simpl; [done |].
  pose proof (progress_step_keeps_started p c H) as Hstep.
  assert (Hc : stamps (snd (progress_step p c)) = []).
  { destruct c; simpl; by rewrite ?H. }
  destruct (progress_step p c) as [p1 t1]. simpl in *.
  specialize (IH p1 Hstep). destruct (progress_run p1 cs) as [p2 t2].
  simpl in *. unfold stamps in *. by rewrite omap_app, Hc, IH.
Qed.

Lemma progress_run_cons (p : progress) (c : progress_call)
    (cs : list progress_call) :
  progress_run p (c :: cs) =
    (fst (progress_run (fst (progress_step p c)) cs),
     snd (progress_step p c) ++ snd (progress_run (fst (progress_step p c)) cs)).
Proof.
  simpl. destruct (progress_step p c) as [p1 t1]. simpl.
  by destruct (progress_run p1 cs).
Qed.

(** Of all the calls on a tracker only the first [start()] pushes a start
    time. *)
Lemma stamps_run (p : progress) (cs : list progress_call) :
  stamps (snd (progress_run p cs)) =
    if hasStarted p then [] else take 1 (start_times cs).
Proof.
  destruct (hasStarted p) eqn:Hp; [by apply stamps_started |].
  revert p Hp. induction cs as [| c cs IH]; intros p Hp; [done |].
  rewrite progress_run_cons. simpl snd. unfold stamps. rewrite omap_app.
  destruct c as [now | status | | | v].
  - pose proof (stamps_started (fst (progress_step p (PStart now))) cs) as Hrest.
    simpl in *. rewrite Hp in *. simpl in *. unfold stamps in Hrest.
    rewrite Hrest by done. by destruct (start_times cs).
  - exact (IH p Hp).
  - exact (IH (fst (progress_step p PTick)) Hp).
  - exact (IH p Hp).
  - exact (IH (fst (progress_step p (PSetTotal v))) Hp).
Qed.

(** Below 2^53 the increment is exact. *)
Lemma js_increment_exact (n : Z) :
  - 2 ^ 53 <= n < 2 ^ 53 -> js_increment n = n + 1.
Proof.
  intros Hn. unfold js_increment, round_double.
  destruct (Z.leb_spec (Z.abs (n + 1)) (2 ^ 53)); [done | lia].
Qed.

Lemma tick_count_cons (c : progress_call) (cs : list progress_call) :
  tick_count (c :: cs) = (if is_tick c then 1 else 0) + tick_count cs.
Proof.
  unfold tick_count. simpl. destruct (is_tick c); simpl; lia.
Qed.

Lemma tick_count_nonneg (cs : list progress_call) : 0 <= tick_count cs.
Proof. unfold tick_count. lia. Qed.

(** While the count stays within 2^53, a sequence of calls adds its number
    of [tick()] calls to [current]. *)
Lemma progress_run_current (p : progress) (cs : list progress_call) :
  - 2 ^ 53 <= current p -> current p + tick_count cs <= 2 ^ 53 ->
  current (fst (progress_run p cs)) = current p + tick_count cs.
Proof.
  revert p. induction cs as [| c cs IH]; intros p Hlow Hhigh.
  - simpl. unfold tick_count. simpl. lia.
  - rewrite progress_run_cons. simpl fst.
    rewrite tick_count_cons in *.
    pose proof (tick_count_nonneg cs) as Hpos.
    destruct c as [now | status | | | v]; simpl in *.
    + destruct (hasStarted p); simpl; rewrite IH; simpl; lia.
    + rewrite IH; lia.
    + rewrite IH; simpl; rewrite js_increment_exact by lia; lia.
    + rewrite IH; lia.
    + rewrite IH; simpl; lia.
Qed.

(** C3, amended.  [done()] and [end()] finish the span and tell the backend,
    and change nothing the handle closes over: the handle records no
    finished state, so every later call does exactly what it does on a
    running activity.  [tick()] still increments [current] - by one, for a
    count below 2^53 - and pushes it, [setStatus] and a [total] assignment
    still push, a spinner's [start()] still pushes a start time; the one
    guarded call is a progress tracker's [start()] after an earlier
    [start()]. *)
Theorem calls_after_finish_are_not_guarded :
  (forall (p : progress) (c : progress_call),
     progress_step p PDone = (p, [FinishSpan (p_span p); ActivityDone (p_name p)])
     /\ progress_step (fst (progress_step p PDone)) c = progress_step p c)
  /\ (forall p : progress,
        current (fst (progress_step (fst (progress_step p PDone)) PTick))
          = js_increment (current p)
        /\ snd (progress_step (fst (progress_step p PDone)) PTick)
             = [ActivityUpdate (p_name p)
                  (<["current" := VNum (js_increment (current p))]> ∅)]
        /\ (- 2 ^ 53 <= current p < 2 ^ 53 ->
            js_increment (current p) = current p + 1))
  /\ (forall (p : progress) (status v : value),
        snd (progress_step (fst (progress_step p PDone)) (PSetStatus status))
          = [ActivityUpdate (p_name p) (<["status" := status]> ∅)]
        /\ snd (progress_step (fst (progress_step p PDone)) (PSetTotal v))
             = [ActivityUpdate (p_name p) (<["total" := v]> ∅)]
        /\ total (fst (progress_step (fst (progress_step p PDone)) (PSetTotal v))) = v)
  /\ (forall (p : progress) (now : value),
        progress_step (fst (progress_step p PDone)) (PStart now) =
          if hasStarted p then (p, [])
          else (fst (progress_step p (PStart now)),
                [ActivityUpdate (p_name p) (<["startTime" := now]> ∅)]))
  /\ (forall (s : spinner) (c : spinner_call),
        spinner_step s SEnd = (s, [FinishSpan (s_span s); ActivityDone (s_name s)])
        /\ spinner_step (fst (spinner_step s SEnd)) c = spinner_step s c
        /\ snd (spinner_step (fst (spinner_step s SEnd)) c) ≠ []).
Proof.
  split; [| split; [| split; [| split]]].
  - intros p c. by split.
  - intros p. split; [done |]. split; [done |]. apply js_increment_exact.
  - intros p status v. by repeat split.
  - intros p now. simpl. by destruct (hasStarted p).
  - intros s c. split; [done |]. split; [done |]. by destruct c.
Qed.

(** C6.  A tracker created with total 10 and the default start 0 has, after
    four [tick()] calls, [current] 4 and [total] 10, having pushed the counts
    1, 2, 3, 4; the assignment [total = 20] then leaves [current] at 4 and
    makes [total] 20.  On every tracker whose count is below 2^53 - so on
    this one after any calls with fewer than 2^53 [tick()]s among them -
    [tick()] adds exactly one to [current], touches nothing else and pushes
    the new count; and a [total] assignment stores and pushes the value as
    it is, whatever [current] is. *)
Theorem four_ticks_then_total (name : string) (parentSpan : option span) :
  let p0 := fst (createProgress name (VNum 10) None parentSpan) in
  let p4 := fst (progress_run p0 [PTick; PTick; PTick; PTick]) in
  let p5 := fst (progress_step p4 (PSetTotal (VNum 20))) in
  (current p0 = 0 /\ current p4 = 4 /\ total p4 = VNum 10)
  /\ snd (progress_run p0 [PTick; PTick; PTick; PTick]) =
       [ActivityUpdate name (<["current" := VNum 1]> ∅);
        ActivityUpdate name (<["current" := VNum 2]> ∅);
        ActivityUpdate name (<["current" := VNum 3]> ∅);
        ActivityUpdate name (<["current" := VNum 4]> ∅)]
  /\ (current p5 = 4 /\ total p5 = VNum 20)
  /\ snd (progress_step p4 (PSetTotal (VNum 20))) =
       [ActivityUpdate name (<["total" := VNum 20]> ∅)]
  /\ (forall p : progress, - 2 ^ 53 <= current p < 2 ^ 53 ->
        progress_step p PTick =
          ({| p_name := p_name p; p_span := p_span p; hasStarted := hasStarted p;
              current := current p + 1; total := total p |},
           [ActivityUpdate (p_name p) (<["current" := VNum (current p + 1)]> ∅)]))
  /\ (forall cs : list progress_call, tick_count cs < 2 ^ 53 ->
        let p := fst (progress_run p0 cs) in
        current p = tick_count cs
        /\ current (fst (progress_step p PTick)) = current p + 1
        /\ pushed_counts (snd (progress_step p PTick)) = [VNum (current p + 1)])
  /\ (forall (p : progress) (v : value),
        progress_step p (PSetTotal v) =
          ({| p_name := p_name p; p_span := p_span p; hasStarted := hasStarted p;
              current := current p; total := v |},
           [ActivityUpdate (p_name p) (<["total" := v]> ∅)])).
Proof.
  intros p0 p4 p5.
  assert (Hstep : forall p : progress, - 2 ^ 53 <= current p < 2 ^ 53 ->
            progress_step p PTick =
              ({| p_name := p_name p; p_span := p_span p;
                  hasStarted := hasStarted p; current := current p + 1;
                  total := total p |},
               [ActivityUpdate (p_name p)
                  (<["current" := VNum (current p + 1)]> ∅)])).
  { intros p Hp. simpl. by rewrite js_increment_exact. }
  do 4 (split; [done |]). split; [exact Hstep |]. split; [| done].
  intros cs Hcs p.
  pose proof (tick_count_nonneg cs) as Hpos.
  assert (Hcurrent : current p = tick_count cs).
  { subst p. rewrite progress_run_current; simpl; lia. }
  split; [done |]. rewrite Hstep by lia. by split.
Qed.

(** C7.  On every progress tracker, once [start()] has been called, a later
    [start()] - directly after or after any other calls - returns at the
    guard: [current], [total] and [hasStarted] stay as they are and nothing
    is pushed.  A tracker fresh from [createProgress] pushes the start time
    of the first [start()] among its calls and no other: the backend's
    recorded start time is that of the first call. *)
Theorem progress_start_idempotent :
  (forall (p : progress) (t1 t2 : value) (cs : list progress_call),
     let p1 := fst (progress_step p (PStart t1)) in
     let p2 := fst (progress_run p1 cs) in
     progress_step p1 (PStart t2) = (p1, [])
     /\ progress_step p2 (PStart t2) = (p2, []))
  /\ (forall (name : string) (total0 : value) (start0 : option Z)
        (parentSpan : option span) (t1 : value),
        let p0 := fst (createProgress name total0 start0 parentSpan) in
        progress_step p0 (PStart t1) =
          ({| p_name := name; p_span := startSpan name parentSpan;
              hasStarted := true; current := default 0 start0; total := total0 |},
           [ActivityUpdate name (<["startTime" := t1]> ∅)]))
  /\ (forall (name : string) (total0 : value) (start0 : option Z)
        (parentSpan : option span) (cs : list progress_call),
        let p0 := fst (createProgress name total0 start0 parentSpan) in
        stamps (snd (progress_run p0 cs)) = take 1 (start_times cs)).
Proof.
  split; [| split].
  - intros p t1 t2 cs p1 p2.
    assert (H1 : hasStarted p1 = true).
    { subst p1. simpl. by destruct (hasStarted p) eqn:Hp. }
    assert (H2 : hasStarted p2 = true).
    { subst p2. by apply progress_run_keeps_started. }
    simpl. by rewrite H1, H2.
  - done.
  - intros name total0 start0 parentSpan cs p0.
    by rewrite stamps_run.
Qed.

End Handles.

(** ** The properties at concrete inputs *)

Module Examples.

Import Sample.

(** [{ id: "95312", docsUrl: "https://example.com/mine", context: { ref: "window" } }] *)
Definition ssr_details : obj :=
  <["context" := VObj (<["ref" := VStr "window"]> ∅)]>
    (<["docsUrl" := VStr "https://example.com/mine"]>
       (<["id" := VStr "95312"]> ∅)).

(** [{ text: 404 }] *)
Definition numeric_text : obj := <["text" := VNum 404]> ∅.

(** The definition's [docsUrl] replaces the caller's; the caller's [id],
    which the definition does not carry, stays. *)
Lemma merge_definition_overrides_details_at_ssr :
  richError_of collaborators ssr_details !! "docsUrl"
    = Some (VStr "https://gatsby.dev/debug-html")
  /\ richError_of collaborators ssr_details !! "id" = Some (VStr "95312").
Proof.
  split.
  - apply (merge_definition_overrides_details collaborators ssr_details "docsUrl");
      [discriminate | discriminate | reflexivity].
  - refine (eq_trans
      (proj1 (proj2 (proj2
        (merge_definition_overrides_details collaborators ssr_details "id" _ _))) _) _);
      [discriminate | discriminate | reflexivity | reflexivity].
Defined.

(** C2 as stated fails: on a key that both the caller and the definition
    carry, here [docsUrl], the returned rich error holds the definition's
    value, where the order "definition, then details" would keep the
    caller's. *)
Lemma caller_field_is_overridden :
  ssr_details !! "docsUrl" = Some (VStr "https://example.com/mine")
  /\ def_fields (lookup_definition collaborators ssr_details) !! "docsUrl"
       = Some (VStr "https://gatsby.dev/debug-html")
  /\ createRichError collaborators ssr_details
       = ([], Normal (richError_of collaborators ssr_details))
  /\ richError_of collaborators ssr_details !! "docsUrl"
       = Some (VStr "https://gatsby.dev/debug-html")
  /\ richError_definition_first collaborators ssr_details !! "docsUrl"
       = Some (VStr "https://example.com/mine").
Proof. repeat split. Qed.

(** C3 as stated fails: after [done()] a [tick()] still moves [current]
    from 0 to 1 and pushes the count to the backend. *)
Lemma tick_after_done_still_counts :
  let p0 := fst (createProgress "build pages" (VNum 10) None None) in
  let finished := fst (progress_step p0 PDone) in
  current finished = 0
  /\ progress_step finished PTick =
       ({| p_name := "build pages"; p_span := Span "build pages" None;
           hasStarted := false; current := 1; total := VNum 10 |},
        [ActivityUpdate "build pages" (<["current" := VNum 1]> ∅)])
  /\ progress_step finished PTick ≠ (finished, []).
Proof. repeat split. discriminate. Qed.

(** C4 as stated fails: the diagnostic of a failed validation is one call of
    the reporter's [log], and nothing is written to standard error. *)
Lemma validation_diagnostic_goes_to_the_log :
  Joi_validate collaborators (richError_of collaborators numeric_text)
    = Some (VStr "text must be a string")
  /\ createRichError collaborators numeric_text =
       ([ReporterLog ChLog
           (VArr [VStr "Failed to validate error"; VStr "text must be a string"])],
        Exit 1)
  /\ existsb writes_stderr (fst (createRichError collaborators numeric_text)) = false.
Proof. repeat split. Qed.

(** [panicOnBuild("x")] under the [develop] command. *)
Lemma panicOnBuild_after_error_at_develop :
  panicOnBuild collaborators (Some "develop") [VStr "x"] =
    ([ReporterError
        (<["stack" := VArr []]>
           (<["text" := VStr "x"]>
              (<["category" := VStr "UNKNOWN"]> (<["level" := VStr "ERROR"]> ∅))));
      TrackError "BUILD_PANIC" [VStr "x"]],
     Normal tt).
Proof.
  refine (eq_trans
    (proj1 (proj1
      (panicOnBuild_after_error collaborators (Some "develop") [VStr "x"]
         (fst (error collaborators [VStr "x"])) (Normal tt) _) _)) _);
    reflexivity.
Defined.

(** C5 as stated fails: under the [develop] command, [panicOnBuild] on
    details that validation rejects ends the process with status 1 and
    records no telemetry. *)
Lemma panicOnBuild_exits_outside_build :
  panicOnBuild collaborators (Some "develop") [VObj numeric_text] =
    ([ReporterLog ChLog
        (VArr [VStr "Failed to validate error"; VStr "text must be a string"])],
     Exit 1)
  /\ telemetry (fst (panicOnBuild collaborators (Some "develop") [VObj numeric_text]))
       = [].
Proof. repeat split. Qed.




(** [error({ id: "constructor" })] throws, and
    [{ id: "constructor", text: "Build failed" }] gets no severity. *)
Lemma inherited_identifier_skips_default_at_constructor :
  error collaborators [VObj (<["id" := VStr "constructor"]> ∅)]
    = ([], Throw TypeError)
  /\ richError_of collaborators
       (<["text" := VStr "Build failed"]> (<["id" := VStr "constructor"]> ∅))
       !! "level" = None.
Proof.
  split.
  - apply (inherited_identifier_skips_default collaborators
             (<["id" := VStr "constructor"]> ∅)); reflexivity.
  - pose proof (inherited_identifier_skips_default collaborators
                  (<["text" := VStr "Build failed"]>
                     (<["id" := VStr "constructor"]> ∅)) eq_refl eq_refl)
      as (_ & _ & Hkeys).
    rewrite Hkeys; [reflexivity | reflexivity | discriminate | discriminate].
Defined.

(** [{ id: "12345" }], an identifier the table does not hold. *)
Lemma unknown_identifier_uses_default_at_12345 :
  lookup_definition collaborators (<["id" := VStr "12345"]> ∅) = default_definition
  /\ richError_of collaborators (<["id" := VStr "12345"]> ∅) !! "level"
       = Some (VStr "ERROR")
  /\ richError_of collaborators (<["id" := VStr "12345"]> ∅) !! "category"
       = Some (VStr "UNKNOWN").
Proof.
  pose proof (unknown_identifier_uses_default collaborators
                (<["id" := VStr "12345"]> ∅) (or_intror eq_refl)) as (Hdef & Hl & Hc & _).
  split; [exact Hdef |]. split; [by apply Hl | by apply Hc].
Defined.

(** [error(42)]. *)
Lemma shapeless_argument_builds_default_at_42 :
  error collaborators [VNum 42] =
    ([ReporterError
        (<["stack" := VArr []]>
           (<["text" := VStr "There was an error"]>
              (<["category" := VStr "UNKNOWN"]> (<["level" := VStr "ERROR"]> ∅))))],
     Normal tt).
Proof.
  refine (eq_trans
    (proj2 (proj2
      (shapeless_argument_builds_default collaborators (VNum 42) _))) _).
  - repeat split; discriminate.
  - reflexivity.
Defined.

End Examples.

(** * Further properties *)

(** ** How [reporter.error] ends *)

Section ErrorOutcomes.

Variable E : externals.

(** Unless the call throws, the details are those of one of the shapes. *)
Lemma error_details_cases (args : list value) :
  (exists message props, args = [VErr message props]
     /\ error_details args = throw TypeError)
  \/ (exists details, error_details args = mret details
        /\ forall message props, args ≠ [VErr message props]).
Proof.
  destruct args as [| x [| y [| z rest]]].
  - right. by exists ∅.
  - destruct x; try (right; eexists; split; [reflexivity | done]).
    left. by eexists _, _.
  - right. eexists. split; [reflexivity | done].
  - right. exists ∅. split; [reflexivity | done].
Qed.

(** The three ways [error] can go. *)
Lemma error_cases (args : list value) :
  (exists message props, args = [VErr message props]
     /\ error E args = ([], Throw TypeError))
  \/ (exists details, error_details args = mret details
        /\ (forall message props, args ≠ [VErr message props])
        /\ error E args =
             if generator_missing E details then ([], Throw TypeError)
             else
               match Joi_validate E (richError_of E details) with
               | None =>
                   (ReporterError (richError_of E details) ::
                      (if truthy (prop (richError_of E details) "error")
                       then [ReporterLog ChLog
                               (errorFormatter_render E
                                  (prop (richError_of E details) "error"))]
                       else []),
                    Normal tt)
               | Some err =>
                   ([ReporterLog ChLog
                       (util_format E [VStr "Failed to validate error"; err])],
                    Exit 1)
               end).
Proof.
  destruct (error_details_cases args) as [(m & p & -> & Hthrow) | (d & Hd & Hne)].
  - left. by exists m, p.
  - right. exists d. split; [done |]. split; [done |].
    unfold error. rewrite Hd, bind_ret, createRichError_spec.
    destruct (generator_missing E d); [done |].
    destruct (Joi_validate E (richError_of E d)) as [err |]; [done |].
    by rewrite bind_normal, render_richError_spec.
Qed.


(** X1.  Whatever its arguments, [error] talks to the rendering backend
    only: each event of its trace is a rich error or a line on the [log]
    channel, there are at most two of them, and it records no telemetry,
    starts or finishes no span and touches no activity. *)
Theorem error_only_reports (args : list value) :
  Forall (fun e => is_report e = true) (fst (error E args))
  /\ (length (fst (error E args)) <= 2)%nat
  /\ telemetry (fst (error E args)) = [].
Proof.
  destruct (error_cases args) as [(m & p & _ & ->) | (d & _ & _ & ->)].
  - simpl. split; [constructor |]. split; [lia | done].
  - destruct (generator_missing E d);
      [simpl; split; [constructor |]; split; [lia | done] |].
    destruct (Joi_validate E (richError_of E d)); [| destruct (truthy _)];
      simpl; (split; [by repeat constructor |]); (split; [lia | done]).
Qed.

(** X2.  A rich error reaches the rendering backend only after validation:
    every record that [error], [panic] or [panicOnBuild] hands to
    [reporterInstance.error] is one the schema accepts, and there is at most
    one per call. *)
Theorem rendered_errors_are_valid (cmd : option string) (args : list value) :
  Forall (fun r => Joi_validate E r = None) (rendered (fst (error E args)))
  /\ (length (rendered (fst (error E args))) <= 1)%nat
  /\ rendered (fst (panic E args)) = rendered (fst (error E args))
  /\ rendered (fst (panicOnBuild E cmd args)) = rendered (fst (error E args)).
Proof.
  unfold panic, panicOnBuild.
  destruct (error_cases args) as [(m & p & _ & ->) | (d & _ & _ & ->)].
  - simpl. split; [constructor |]. split; [lia | done].
  - destruct (generator_missing E d);
      [simpl; split; [constructor |]; split; [lia | done] |].
    destruct (Joi_validate E (richError_of E d)) as [err |] eqn:Hvalid.
    + simpl. split; [constructor |]. split; [lia | done].
    + rewrite !bind_normal. unfold rendered.
      destruct (truthy _); simpl; case_bool_decide; simpl;
        (split; [by repeat constructor |]); (split; [lia | done]).
Qed.



(** X5.  Under the [build] command [panicOnBuild] is [panic] with the
    telemetry event named [BUILD_PANIC]: the two end the same way and report
    the same things. *)
Theorem panicOnBuild_in_build_is_panic (args : list value) :
  panicOnBuild E (Some "build") args =
    (as_build_panic <$> fst (panic E args), snd (panic E args)).
Proof.
  unfold panic, panicOnBuild.
  destruct (error_cases args) as [(m & p & _ & ->) | (d & _ & _ & ->)]; [done |].
  destruct (generator_missing E d); [done |].
  destruct (Joi_validate E (richError_of E d)); [done |].
  rewrite !bind_normal. by destruct (truthy _).
Qed.

(** X6.  [error] looks at its arguments only when there are one or two of
    them: with none, or with three or more, every argument is ignored and
    the call is the call without arguments; [error(null)] is that call too,
    [null] being an object without properties. *)
Theorem surplus_arguments_are_ignored (args : list value) :
  length args ≠ 1%nat -> length args ≠ 2%nat ->
  error_details args = mret ∅
  /\ error E args = error E []
  /\ error E [VNull] = error E [].
Proof.
  intros H1 H2. destruct args as [| x [| y [| z rest]]]; done.
Qed.

End ErrorOutcomes.

(** ** What the rich error holds *)

Section RichErrorFacts.

Variable E : externals.

Lemma prop_insert_ne (o : obj) (k j : string) (v : value) :
  k ≠ j -> prop (<[k := v]> o) j = prop o j.
Proof. intros H. unfold prop. by rewrite lookup_insert_ne. Qed.

Lemma prop_insert_eq (o : obj) (k : string) (v : value) :
  prop (<[k := v]> o) k = v.
Proof. unfold prop. by rewrite lookup_insert_eq. Qed.

(** [error(o)] for an object literal [o] takes a copy of [o] as details. *)
Lemma error_details_object (o : obj) : error_details [VObj o] = mret o.
Proof.
  unfold error_details, Object_assign. simpl. by rewrite (right_id_L ∅ (∪)).
Qed.

(** X7.  A [stack] the caller supplies has no effect at all: the rich error
    is the one built without it.  Its stack is always an array, computed
    from [details.error]: the parsed frames when that is truthy, and the
    empty array when it is missing or falsy. *)
Theorem caller_stack_is_discarded (details : obj) (v : value) :
  richError_of E (<["stack" := v]> details) = richError_of E details
  /\ richError_of E details !! "stack" =
       Some (VArr (if truthy (prop details "error")
                   then stackTrace_parse E (prop details "error")
                   else [])).
Proof.
  split.
  - unfold richError_of, resolve_text, resolve_stack, lookup_definition,
      lookup_member.
    rewrite !prop_insert_ne by done.
    apply map_eq. intros k.
    destruct (decide (k = "stack")) as [-> | Hs]; [by rewrite !lookup_insert_eq |].
    rewrite !(lookup_insert_ne _ "stack") by done.
    destruct (decide (k = "text")) as [-> | Ht]; [by rewrite !lookup_insert_eq |].
    rewrite !(lookup_insert_ne _ "text") by done.
    rewrite !lookup_union. by rewrite lookup_insert_ne.
  - rewrite richError_stack. unfold resolve_stack. by destruct (truthy _).
Qed.

(** X8.  No field is dropped: the keys of the rich error are [text],
    [stack], the keys of the looked-up definition and every key of the
    caller's details, extra ones included. *)
Theorem richError_keys (details : obj) :
  dom (richError_of E details) =
    {["stack"]} ∪ ({["text"]} ∪
      (dom (def_fields (lookup_definition E details)) ∪ dom details)).
Proof.
  unfold richError_of. by rewrite !dom_insert_L, dom_union_L.
Qed.

(** X9.  Enriching is idempotent where the looked-up definition carries no
    [id], [context] or [error] of its own: building the rich error of a rich
    error gives it back unchanged, so reporting a rich error object again
    reports the same record. *)
Theorem richError_idempotent (details : obj) :
  def_fields (lookup_definition E details) !! "id" = None ->
  def_fields (lookup_definition E details) !! "context" = None ->
  def_fields (lookup_definition E details) !! "error" = None ->
  richError_of E (richError_of E details) = richError_of E details
  /\ error E [VObj (richError_of E details)] = error E [VObj details].
Proof.
  intros Hid Hcontext Herror.
  assert (Hkeep : forall k, k ≠ "text" -> k ≠ "stack" ->
            def_fields (lookup_definition E details) !! k = None ->
            prop (richError_of E details) k = prop details k).
  { intros k Ht Hs Hk. unfold prop.
    rewrite richError_other by done. by rewrite lookup_union_r. }
  assert (Hmember : lookup_member E (richError_of E details)
                    = lookup_member E details).
  { unfold lookup_member at 1. rewrite Hkeep by done. reflexivity. }
  assert (Hdef : lookup_definition E (richError_of E details)
                 = lookup_definition E details).
  { unfold lookup_definition. by rewrite Hmember. }
  assert (Htext : resolve_text E (richError_of E details) = resolve_text E details).
  { unfold resolve_text at 1. rewrite Hdef, (Hkeep "context") by done.
    rewrite (prop_lookup_Some _ _ _ (richError_text E details)).
    unfold resolve_text.
    destruct (truthy (prop details "text")) eqn:Ht; [by rewrite Ht |].
    by destruct (truthy (def_text _ _)). }
  assert (Hstack : resolve_stack E (richError_of E details) = resolve_stack E details).
  { unfold resolve_stack. by rewrite (Hkeep "error"). }
  assert (Hrich : richError_of E (richError_of E details) = richError_of E details).
  { unfold richError_of at 1. rewrite Hdef, Htext, Hstack.
    apply map_eq. intros k.
    destruct (decide (k = "stack")) as [-> | Hs];
      [by rewrite lookup_insert_eq, richError_stack |].
    rewrite (lookup_insert_ne _ "stack") by done.
    destruct (decide (k = "text")) as [-> | Ht];
      [by rewrite lookup_insert_eq, richError_text |].
    rewrite (lookup_insert_ne _ "text") by done.
    rewrite lookup_union, richError_other by done.
    rewrite lookup_union.
    by destruct (def_fields (lookup_definition E details) !! k),
      (details !! k). }
  assert (Hmissing : generator_missing E (richError_of E details)
                     = generator_missing E details).
  { unfold generator_missing. rewrite Hmember.
    rewrite (prop_lookup_Some _ _ _ (richError_text E details)).
    unfold resolve_text, lookup_definition.
    destruct (truthy (prop details "text")) eqn:Ht; [by rewrite Ht |].
    destruct (lookup_member E details); simpl;
      [by rewrite andb_false_r | done]. }
  split; [done |].
  unfold error. rewrite !error_details_object, !bind_ret.
  by rewrite !createRichError_spec, Hmissing, Hrich.
Qed.

(** X10.  [error(text, err)] under a default definition without an [error]
    of its own: the rich error comes from the default definition, keeps
    [err] and the frames parsed from it, and once the schema accepts it the
    backend gets the rich error followed, when [err] is truthy, by one log
    line with the formatted exception; a schema rejection logs the
    diagnostic and ends the process with status 1. *)
Theorem error_with_exception (text err : value) :
  def_fields (defaultError E) !! "error" = None ->
  let details : obj := <["text" := text]> (<["error" := err]> ∅) in
  let richError := richError_of E details in
  lookup_definition E details = defaultError E
  /\ richError !! "error" = Some err
  /\ richError !! "stack" =
       Some (VArr (if truthy err then stackTrace_parse E err else []))
  /\ error E [text; err] =
       match Joi_validate E richError with
       | None =>
           (ReporterError richError ::
              (if truthy err
               then [ReporterLog ChLog (errorFormatter_render E err)]
               else []),
            Normal tt)
       | Some diagnostic =>
           ([ReporterLog ChLog
               (util_format E [VStr "Failed to validate error"; diagnostic])],
            Exit 1)
       end.
Proof.
  intros Herror details richError.
  assert (Hdef : lookup_definition E details = defaultError E).
  { by apply lookup_definition_no_id. }
  assert (Hgen : generator_missing E details = false)
    by by apply generator_present_no_id.
  assert (Hprop : prop details "error" = err) by done.
  assert (Herr : richError !! "error" = Some err).
  { subst richError. rewrite richError_other by done.
    rewrite Hdef, lookup_union_r by done. done. }
  split; [done |]. split; [done |]. split.
  - subst richError. rewrite richError_stack. unfold resolve_stack.
    rewrite Hprop. by destruct (truthy err).
  - unfold error. rewrite error_details_two, bind_ret.
    fold details. fold richError.
    destruct (Joi_validate E richError) as [diagnostic |] eqn:Hvalid.
    + by rewrite (createRichError_invalid E details diagnostic Hgen Hvalid),
        bind_exit.
    + rewrite (createRichError_valid E details Hgen Hvalid), bind_normal,
        render_richError_spec.
      fold richError. by rewrite (prop_lookup_Some _ _ _ Herr).
Qed.

(** X11.  [console.error], once redirected, never throws: the formatted
    string is the one argument of [error], so the report comes from the
    default definition with an empty stack and, unless the string is empty,
    with the string as its text. *)
Theorem console_error_reports_text (args : list value) (s : string) :
  util_format E args = VStr s ->
  let richError := richError_of E (<["text" := VStr s]> ∅) in
  console_error E args = error E [VStr s]
  /\ lookup_definition E (<["text" := VStr s]> ∅) = defaultError E
  /\ richError !! "stack" = Some (VArr [])
  /\ richError !! "text" =
       Some (if String.eqb s "" then def_text (defaultError E) VUndefined
             else VStr s)
  /\ (snd (console_error E args) = Normal tt
      \/ snd (console_error E args) = Exit 1).
Proof.
  intros Hformat richError. unfold console_error. rewrite Hformat.
  subst richError.
  split; [done |]. split; [by apply lookup_definition_no_id |].
  split; [by rewrite richError_stack |]. split.
  - rewrite richError_text. unfold resolve_text.
    rewrite prop_insert_eq. simpl. by destruct (String.eqb s "").
  - destruct (error_cases E [VStr s]) as [(m & p & Hargs & _) | (d & Hd & _ & ->)];
      [done |].
    injection Hd as <-.
    rewrite (generator_present_no_id E (<["text" := VStr s]> ∅)) by done.
    destruct (Joi_validate E _); [by right | by left].
Qed.

End RichErrorFacts.

(** ** Sessions on a handle *)

Section SessionFacts.

Lemma spinner_run_cons (s : spinner) (c : spinner_call) (cs : list spinner_call) :
  spinner_run s (c :: cs) =
    (fst (spinner_run (fst (spinner_step s c)) cs),
     snd (spinner_step s c) ++ snd (spinner_run (fst (spinner_step s c)) cs)).
Proof.
  simpl. destruct (spinner_step s c) as [s1 t1]. simpl.
  by destruct (spinner_run s1 cs).
Qed.

Lemma spinner_step_state (s : spinner) (c : spinner_call) :
  fst (spinner_step s c) = s.
Proof. by destruct c. Qed.

Lemma progress_run_state (p : progress) (cs : list progress_call) :
  total (fst (progress_run p cs)) = default (total p) (last (assigned_totals cs))
  /\ hasStarted (fst (progress_run p cs)) = hasStarted p || existsb is_start cs
  /\ p_name (fst (progress_run p cs)) = p_name p
  /\ p_span (fst (progress_run p cs)) = p_span p.
Proof.
  revert p. induction cs as [| c cs IH]; intros p.
  - simpl. by rewrite orb_false_r.
  - rewrite progress_run_cons. simpl fst.
    destruct (IH (fst (progress_step p c))) as (Ht & Hs & Hn & Hp).
    rewrite Ht, Hs, Hn, Hp. unfold assigned_totals in *.
    destruct c as [now | status | | | v]; simpl.
    + by destruct (hasStarted p) eqn:Hst; simpl; rewrite ?Hst.
    + done.
    + done.
    + done.
    + repeat split; try done.
      rewrite last_cons. fold (omap assigned_total_of cs).
      by destruct (last (omap assigned_total_of cs)).
Qed.

(** At 2^53 the increment has no effect: 2^53 + 1 is no double and rounds
    back. *)
Lemma js_increment_saturated : js_increment (2 ^ 53) = 2 ^ 53.
Proof. reflexivity. Qed.

(** X12.  What a sequence of calls leaves in a progress tracker: while the
    count stays within 2^53, [current] is its old value plus the number of
    [tick()] calls, so it never goes down; [total] is the last value
    assigned, or the old one when none was; [hasStarted] holds when it held
    or [start()] was called; the name and the span are the ones the tracker
    was created with. *)
Theorem progress_run_summary (p : progress) (cs : list progress_call) :
  let p' := fst (progress_run p cs) in
  (- 2 ^ 53 <= current p -> current p + tick_count cs <= 2 ^ 53 ->
     current p' = current p + tick_count cs /\ current p <= current p')
  /\ total p' = default (total p) (last (assigned_totals cs))
  /\ hasStarted p' = hasStarted p || existsb is_start cs
  /\ p_name p' = p_name p
  /\ p_span p' = p_span p.
Proof.
  simpl. split; [| apply progress_run_state].
  intros Hlow Hhigh. rewrite progress_run_current by done.
  pose proof (tick_count_nonneg cs). lia.
Qed.

(** X13.  While the count stays within 2^53, the counts a sequence of calls
    pushes to the backend are consecutive: starting from [current], the n-th
    [tick()] pushes [current + n], and no other call pushes a count. *)
Theorem pushed_counts_are_consecutive (p : progress) (cs : list progress_call) :
  - 2 ^ 53 <= current p -> current p + tick_count cs <= 2 ^ 53 ->
  pushed_counts (snd (progress_run p cs)) =
    VNum <$> seqZ (current p + 1) (tick_count cs).
Proof.
  revert p. induction cs as [| c cs IH]; intros p Hlow Hhigh; [done |].
  rewrite progress_run_cons. simpl snd. unfold pushed_counts in *.
  rewrite tick_count_cons in *.
  pose proof (tick_count_nonneg cs) as Hpos.
  rewrite omap_app.
  destruct c as [now | status | | | v]; simpl in *.
  - destruct (hasStarted p); simpl; by rewrite IH.
  - by rewrite IH.
  - rewrite js_increment_exact by lia.
    rewrite IH by (simpl; rewrite ?js_increment_exact; lia).
    simpl.
    rewrite (seqZ_cons (current p + 1)) by lia. simpl.
    do 3 f_equal; lia.
  - by rewrite IH.
  - by rewrite IH.
Qed.

(** X19.  The count stops at 2^53: on a tracker whose [current] is 2^53,
    [tick()] leaves [current] where it is and pushes 2^53 again, so no
    sequence of calls moves the count any further. *)
Theorem count_stops_at_2_53 (p : progress) (cs : list progress_call) :
  current p = 2 ^ 53 ->
  current (fst (progress_run p cs)) = 2 ^ 53
  /\ pushed_counts (snd (progress_run p cs)) =
       replicate (Z.to_nat (tick_count cs)) (VNum (2 ^ 53)).
Proof.
  revert p. induction cs as [| c cs IH]; intros p Hp; [done |].
  rewrite progress_run_cons. simpl fst. simpl snd.
  unfold pushed_counts in *. rewrite omap_app, tick_count_cons.
  pose proof (tick_count_nonneg cs) as Hpos.
  destruct c as [now | status | | | v].
  - assert (Hstep : current (fst (progress_step p (PStart now))) = 2 ^ 53).
    { simpl. by destruct (hasStarted p). }
    destruct (IH _ Hstep) as [Hc Ht]. rewrite Hc, Ht.
    split; [done |]. simpl. by destruct (hasStarted p).
  - destruct (IH p Hp) as [Hc Ht]. simpl. by rewrite Hc, Ht.
  - assert (Hstep : current (fst (progress_step p PTick)) = 2 ^ 53).
    { simpl. rewrite Hp. apply js_increment_saturated. }
    destruct (IH _ Hstep) as [Hc Ht]. rewrite Hc, Ht.
    split; [done |]. simpl snd. simpl omap.
    rewrite Hp, js_increment_saturated, lookup_insert_eq.
    simpl is_tick. cbv iota.
    replace (Z.to_nat (1 + tick_count cs)) with (S (Z.to_nat (tick_count cs)))
      by lia.
    done.
  - destruct (IH p Hp) as [Hc Ht]. simpl. by rewrite Hc, Ht.
  - assert (Hstep : current (fst (progress_step p (PSetTotal v))) = 2 ^ 53)
      by done.
    destruct (IH _ Hstep) as [Hc Ht]. by rewrite Hc, Ht.
Qed.

(** X14.  A spinner's [start()] has no guard: every call pushes its start
    time, so the start times the backend receives are those of all the
    [start()] calls, in order - and no call changes the handle. *)
Theorem spinner_restamps (s : spinner) (cs : list spinner_call) :
  stamps (snd (spinner_run s cs)) = spinner_start_times cs
  /\ fst (spinner_run s cs) = s.
Proof.
  induction cs as [| c cs [IHt IHs]]; [done |].
  rewrite spinner_run_cons, spinner_step_state. simpl.
  split; [| done].
  unfold stamps, spinner_start_times in *. rewrite omap_app, IHt.
  by destruct c.
Qed.

(** X15.  A handle speaks for its own activity only: whatever is called on
    it, every event is an update or the end of the activity of its name, or
    the finish of its span - it creates nothing, starts no span, and emits
    nothing else. *)
Theorem handle_events_are_its_own :
  (forall (p : progress) (cs : list progress_call),
     Forall (addresses (p_name p) (p_span p)) (snd (progress_run p cs)))
  /\ (forall (s : spinner) (cs : list spinner_call),
        Forall (addresses (s_name s) (s_span s)) (snd (spinner_run s cs))).
Proof.
  split.
  - intros p cs. revert p. induction cs as [| c cs IH]; intros p; [constructor |].
    rewrite progress_run_cons. simpl snd. apply Forall_app. split.
    + destruct c; simpl; try destruct (hasStarted p); by repeat constructor.
    + specialize (IH (fst (progress_step p c))).
      assert (Hn : p_name (fst (progress_step p c)) = p_name p)
        by apply progress_step_name.
      assert (Hs : p_span (fst (progress_step p c)) = p_span p).
      { destruct c; simpl; by try destruct (hasStarted p). }
      by rewrite Hn, Hs in IH.
  - intros s cs. induction cs as [| c cs IH]; [constructor |].
    rewrite spinner_run_cons, spinner_step_state. simpl snd.
    apply Forall_app. split; [| done].
    destruct c; by repeat constructor.
Qed.

(** X16.  Finishing is not guarded either: each [done()] on a progress
    tracker and each [end()] on a spinner finishes the span again, so a
    sequence of calls finishes the handle's span once per such call. *)
Theorem span_finished_once_per_done :
  (forall (p : progress) (cs : list progress_call),
     finished_spans (snd (progress_run p cs)) = replicate (done_count cs) (p_span p))
  /\ (forall (s : spinner) (cs : list spinner_call),
        finished_spans (snd (spinner_run s cs)) = replicate (end_count cs) (s_span s)).
Proof.
  split.
  - intros p cs. revert p. induction cs as [| c cs IH]; intros p; [done |].
    rewrite progress_run_cons. simpl snd. unfold finished_spans in *.
    rewrite omap_app, IH.
    assert (Hs : p_span (fst (progress_step p c)) = p_span p).
    { destruct c; simpl; by try destruct (hasStarted p). }
    rewrite Hs. unfold done_count.
    destruct c; simpl; by try destruct (hasStarted p).
  - intros s cs. induction cs as [| c cs IH]; [done |].
    rewrite spinner_run_cons, spinner_step_state. simpl snd.
    unfold finished_spans in *. rewrite omap_app, IH. unfold end_count.
    by destruct c.
Qed.

End SessionFacts.

(** ** An array as the one argument of [reporter.error] *)

Section ArrayArgument.

Lemma is_digit_pretty_N_char (x : N) : is_digit (pretty_N_char x) = true.
Proof. unfold pretty_N_char. by repeat case_match. Qed.

Lemma digits_pretty_N_go (x : N) :
  forall s : string, digits s = true -> digits (pretty_N_go x s) = true.
Proof.
  pattern x. apply (well_founded_induction N.lt_wf_0). clear x.
  intros x IH s Hs.
  destruct (decide (x = 0%N)) as [-> | Hx]; [by rewrite pretty_N_go_0 |].
  rewrite pretty_N_go_step by lia.
  apply IH; [apply N.div_lt; lia |].
  simpl. by rewrite is_digit_pretty_N_char, Hs.
Qed.

Lemma digits_pretty (i : nat) : digits (pretty i) = true.
Proof.
  unfold pretty, pretty_nat, pretty, pretty_N.
  case_decide; [done |]. by apply digits_pretty_N_go.
Qed.

(** The map of a list under injective keys reads back the list. *)
Lemma keyed_lookup (key : nat -> string) (l : list value) :
  Inj (=) (=) key ->
  forall j : nat,
    (list_to_map (imap (fun i v => (key i, v)) l) : obj) !! key j = l !! j.
Proof.
  revert key. induction l as [| x l IH]; intros key Hinj j; [done |].
  simpl. destruct j as [| j].
  - by rewrite lookup_insert_eq.
  - rewrite lookup_insert_ne by (intros H; by apply Hinj in H).
    apply (IH (key ∘ S)). intros a b H. apply Hinj in H. by injection H.
Qed.

Lemma keyed_domain (key : nat -> string) (l : list value) (k : string) :
  is_Some ((list_to_map (imap (fun i v => (key i, v)) l) : obj) !! k) ->
  exists i : nat, k = key i.
Proof.
  revert key. induction l as [| x l IH]; intros key Hk; simpl in Hk.
  - rewrite lookup_empty in Hk. by destruct Hk.
  - destruct (decide (key 0%nat = k)) as [<- | Hne]; [by exists 0%nat |].
    rewrite lookup_insert_ne in Hk by done.
    destruct (IH (key ∘ S) Hk) as [i ->]. by exists (S i).
Qed.

Variable E : externals.

(** X17.  [error(list)] with an array takes the object branch: the details
    are the array's elements under their decimal indices, and under nothing
    else.  So an array supplies no [id], [text], [context] or [error]: the
    report comes from the default definition, with the default's generated
    text and an empty stack, whatever the array holds. *)
Theorem array_argument_is_index_keyed (items : list value) :
  error_details [VArr items] = mret (index_map items)
  /\ (forall i : nat, index_map items !! pretty i = items !! i)
  /\ (forall k : string, is_Some (index_map items !! k) -> digits k = true)
  /\ lookup_definition E (index_map items) = defaultError E
  /\ resolve_text E (index_map items) = def_text (defaultError E) VUndefined
  /\ resolve_stack E (index_map items) = VArr [].
Proof.
  assert (Hdigits : forall k : string,
            is_Some (index_map items !! k) -> digits k = true).
  { intros k Hk. destruct (keyed_domain _ _ _ Hk) as [i ->].
    apply digits_pretty. }
  assert (Hnone : forall k : string, digits k = false -> prop (index_map items) k = VUndefined).
  { intros k Hk. apply prop_lookup_None.
    destruct (index_map items !! k) eqn:Hl; [| done].
    rewrite (Hdigits k (mk_is_Some _ _ Hl)) in Hk. done. }
  split.
  { unfold error_details, Object_assign. simpl. by rewrite (right_id_L ∅ (∪)). }
  split; [intros i; apply keyed_lookup, _ |]. split; [done |].
  unfold resolve_text, resolve_stack, lookup_definition, lookup_member.
  by rewrite !Hnone.
Qed.

End ArrayArgument.

(** ** The further properties at concrete inputs *)

Module FurtherExamples.

Import Sample.

(** [util.format] on one string is that string. *)
Definition format_string (args : list value) : value :=
  match args with
  | [VStr s] => VStr s
  | _ => VStr ""
  end.

Definition string_collaborators : externals := {|
  errorMap := table;
  defaultError := default_definition;
  Joi_validate := validate;
  stackTrace_parse := stackTrace_parse collaborators;
  errorFormatter_render := fun e => e;
  util_format := format_string;
|}.

(** [error("Build failed", new Error("boom"), "extra")] is [error()]. *)
Lemma surplus_arguments_are_ignored_at_three :
  error collaborators [VStr "Build failed"; VErr "boom" ∅; VStr "extra"]
    = error collaborators [].
Proof.
  apply (surplus_arguments_are_ignored collaborators
           [VStr "Build failed"; VErr "boom" ∅; VStr "extra"]);
    discriminate.
Defined.

(** The rich error of [{ id: "95312", docsUrl: ..., context: ... }], enriched
    again. *)
Lemma richError_idempotent_at_ssr :
  richError_of collaborators (richError_of collaborators Examples.ssr_details)
    = richError_of collaborators Examples.ssr_details.
Proof.
  apply (richError_idempotent collaborators Examples.ssr_details); reflexivity.
Defined.

(** [error("Build failed", new Error("boom"))]. *)
Lemma error_with_exception_at_boom :
  error collaborators [VStr "Build failed"; VErr "boom" ∅] =
    ([ReporterError
        (<["stack" := VArr [VObj (<["lineNumber" := VNum 1]>
                                    (<["fileName" := VStr "index.js"]> ∅))]]>
           (<["text" := VStr "Build failed"]>
              (<["category" := VStr "UNKNOWN"]>
                 (<["level" := VStr "ERROR"]>
                    (<["error" := VErr "boom" ∅]> ∅)))));
      ReporterLog ChLog (VErr "boom" ∅)],
     Normal tt).
Proof.
  refine (eq_trans
    (proj2 (proj2 (proj2
      (error_with_exception collaborators (VStr "Build failed") (VErr "boom" ∅) _))))
    _); reflexivity.
Defined.

(** [console.error("Cannot find module")]. *)
Lemma console_error_reports_text_at_module :
  richError_of string_collaborators (<["text" := VStr "Cannot find module"]> ∅)
    !! "text" = Some (VStr "Cannot find module")
  /\ (snd (console_error string_collaborators [VStr "Cannot find module"]) = Normal tt
      \/ snd (console_error string_collaborators [VStr "Cannot find module"]) = Exit 1).
Proof.
  pose proof (console_error_reports_text string_collaborators
                [VStr "Cannot find module"] "Cannot find module" eq_refl)
    as (_ & _ & _ & Htext & Hend).
  split; [exact Htext | exact Hend].
Defined.

(** [createProgress("pages", 3)], then [tick()], [setStatus("half")],
    [tick()]: the counts 1 and 2 are pushed. *)
Lemma pushed_counts_are_consecutive_at_pages :
  pushed_counts
    (snd (progress_run (fst (createProgress "pages" (VNum 3) None None))
            [PTick; PSetStatus (VStr "half"); PTick]))
    = [VNum 1; VNum 2].
Proof.
  refine (eq_trans
    (pushed_counts_are_consecutive
       (fst (createProgress "pages" (VNum 3) None None))
       [PTick; PSetStatus (VStr "half"); PTick] _ _) _).
  - vm_compute. discriminate.
  - vm_compute. discriminate.
  - reflexivity.
Defined.

(** [createProgress("big", 10, 2 ** 53)], then [tick()] twice: the count
    stays at 2^53, which is pushed both times. *)
Lemma count_stops_at_2_53_at_big :
  current (fst (progress_run (fst (createProgress "big" (VNum 10) (Some (2 ^ 53)) None))
                  [PTick; PTick])) = 2 ^ 53
  /\ pushed_counts
       (snd (progress_run (fst (createProgress "big" (VNum 10) (Some (2 ^ 53)) None))
               [PTick; PTick]))
       = [VNum (2 ^ 53); VNum (2 ^ 53)].
Proof.
  exact (count_stops_at_2_53
           (fst (createProgress "big" (VNum 10) (Some (2 ^ 53)) None))
           [PTick; PTick] eq_refl).
Defined.

End FurtherExamples.
